(** * A user CRUD service: shallow embedding of [main.py] and its properties

    The service maps five HTTP routes onto queries against one table,
    [users], through a request-scoped ORM session.  The embedding follows the
    source: the transfer shapes are records, the table is a list of rows, the
    session is an explicit state (the rows visible to the connection, the ORM
    instances it has handed out, the clock of the storage engine), and each
    route handler is a computation in a small state-and-exception monad whose
    text follows the Python line by line.  Python integers are unbounded; the
    engine stores signed 64-bit integers, and an integer that does not fit is
    refused where it is bound to a statement. *)

From Stdlib Require Import ZArith List String Ascii Bool Lia Eqdep_dec.
Import ListNotations.

Local Open Scope string_scope.
Local Open Scope Z_scope.

(** ** Python values that reach the two comparisons of [update_user]

    [user_update.age is not int] compares an instance with the class object
    [int]; [user_update.sex != 'Female' or 'Male'] takes the truth value of an
    [or] whose right operand is a string literal. *)

Inductive pyclass : Type := cls_int | cls_str | cls_bool.

Inductive pyobj : Type :=
| PyInt (z : Z)
| PyStr (s : string)
| PyBool (b : bool)
| PyClass (c : pyclass).

Definition pyclass_eqb (a b : pyclass) : bool :=
  match a, b with
  | cls_int, cls_int | cls_str, cls_str | cls_bool, cls_bool => true
  | _, _ => false
  end.

(** Truth value testing: zero, the empty string and [False] are false. *)
Definition truthy (v : pyobj) : bool :=
  match v with
  | PyInt z => negb (z =? 0)
  | PyStr s => negb (String.eqb s "")
  | PyBool b => b
  | PyClass _ => true
  end.

(** [a or b] yields [a] when [a] is true and [b] otherwise. *)
Definition py_or (a b : pyobj) : pyobj := if truthy a then a else b.

(** [v is not c] for a class object [c]: identity, so an instance is never
    the class. *)
Definition is_not (v : pyobj) (c : pyclass) : bool :=
  match v with
  | PyClass c' => negb (pyclass_eqb c' c)
  | _ => true
  end.

(** [sub in s] on strings. *)
Fixpoint str_in (sub s : string) : bool :=
  if String.prefix sub s then true
  else match s with
       | EmptyString => false
       | String _ s' => str_in sub s'
       end.

(** ** The engine's integers

    An INTEGER column holds a signed 64-bit value.  A Python [int] becomes one
    when it is bound to a statement, and the binding fails when it does not
    fit. *)

Definition int64_min : Z := - 2 ^ 63.
Definition int64_max : Z := 2 ^ 63 - 1.

Definition in_int64 (z : Z) : bool := (int64_min <=? z) && (z <=? int64_max).

Record int64 : Type := Int64 { to_Z : Z; to_Z_range : in_int64 to_Z = true }.

Definition in_int64_dec (z : Z) : {in_int64 z = true} + {in_int64 z = false} :=
  match in_int64 z as b return {b = true} + {b = false} with
  | true => left eq_refl
  | false => right eq_refl
  end.

(** Binding a Python integer: [None] when it is too large to convert. *)
Definition of_Z (z : Z) : option int64 :=
  match in_int64_dec z with
  | left H => Some (Int64 z H)
  | right _ => None
  end.

(** A literal of the examples. *)
Definition i64 (z : Z) : int64 :=
  match of_Z z with
  | Some x => x
  | None => Int64 0 eq_refl
  end.

(** ** Data model *)

(** A row of the table [users]: the primary key and the age are INTEGER
    columns; [id] and [age] are what Python reads from them. *)
Module Row.
Record t : Type := mk {
  stored_id : int64;
  name : string;
  email : string;
  stored_age : int64;
  sex : string;
  created_at : option Z;
  updated_at : option Z
}.
Definition id (r : t) : Z := to_Z (stored_id r).
Definition age (r : t) : Z := to_Z (stored_age r).
End Row.

(** An instance of the mapped class [User]; [id] and [created_at] are [None]
    until the instance has been flushed. *)
Module User.
Record t : Type := mk {
  id : option Z;
  name : string;
  email : string;
  age : Z;
  sex : string;
  created_at : option Z;
  updated_at : option Z
}.
End User.

Module UserCreate.
Record t : Type := mk {
  name : string;
  email : string;
  age : Z;
  sex : string
}.
End UserCreate.

Module UserRead.
Record t : Type := mk {
  id : Z;
  name : string;
  email : string;
  age : Z;
  sex : string;
  created_at : option Z;
  updated_at : option Z
}.
End UserRead.

Module UserUpdate.
Record t : Type := mk {
  name : option string;
  email : option string;
  age : option Z;
  sex : option string
}.
End UserUpdate.

(** ** Failures *)

Inductive exn : Type :=
| HTTPException (status_code : Z) (detail : string)
| OverflowError              (* a Python int too large to convert to an INTEGER *)
| OperationalError           (* the engine found no unused key: database is full *)
| UnmappedInstanceError      (* Session.delete on something that is no instance *)
| InvalidRequestError        (* Session.refresh on an instance without a row *)
| ValidationError            (* from_orm on an instance that misses a field *)
| ReferenceError.            (* a reference the session never handed out *)

Inductive result (A : Type) : Type :=
| Ok (a : A)
| Raise (e : exn).
Arguments Ok {A} a.
Arguments Raise {A} e.

(** ** The table *)

Definition table : Type := list Row.t.

(** The engine's random source, drawn from when the largest key is taken.
    It is sealed: nothing below can depend on which values it yields. *)
Definition random_rowid (seed : Z) (attempt : nat) : Z.
Proof. exact (seed + Z.of_nat attempt). Qed.

Definition unused (rows : table) (k : Z) : bool :=
  negb (existsb (fun r => Row.id r =? k) rows).

(** One draw: a key between 1 and 2^62, kept when no row has it. *)
Definition draw (seed : Z) (rows : table) (attempt : nat) : option int64 :=
  let v := random_rowid seed attempt mod 2 ^ 62 + 1 in
  if unused rows v then of_Z v else None.

Fixpoint draw_rowid (seed : Z) (rows : table) (attempt count : nat) : option int64 :=
  match count with
  | O => None
  | S count' =>
      match draw seed rows attempt with
      | Some k => Some k
      | None => draw_rowid seed rows (S attempt) count'
      end
  end.

Definition largest_rowid (r : Row.t) (rs : table) : Z :=
  fold_left Z.max (map Row.id rs) (Row.id r).

(** The key of a new row (an integer primary key without AUTOINCREMENT): 1 in
    an empty table, the largest key in use plus one while that fits, and
    otherwise the first unused key among a hundred random draws; [None] when
    every draw is taken. *)
Definition next_rowid (seed : Z) (rows : table) : option int64 :=
  match rows with
  | [] => of_Z 1
  | r :: rs =>
      if largest_rowid r rs <? int64_max
      then of_Z (largest_rowid r rs + 1)
      else draw_rowid seed rows 0 100
  end.

Definition instance_of (r : Row.t) : User.t :=
  User.mk (Some (Row.id r)) (Row.name r) (Row.email r) (Row.age r) (Row.sex r)
          (Row.created_at r) (Row.updated_at r).

(** The parameters of a statement that writes instance [o] under key [i]:
    [None] when the key or the age does not fit. *)
Definition bind_row (i : Z) (o : User.t) : option Row.t :=
  match of_Z i, of_Z (User.age o) with
  | Some k, Some a =>
      Some (Row.mk k (User.name o) (User.email o) a (User.sex o)
                   (User.created_at o) (User.updated_at o))
  | _, _ => None
  end.

(** UPDATE users SET ... WHERE id = i, once the parameters are bound *)
Definition sql_update (i : Z) (r' : Row.t) (rows : table) : table :=
  map (fun r => if Row.id r =? i then r' else r) rows.

(** DELETE FROM users WHERE id = i, once the key is bound *)
Definition sql_delete (i : Z) (rows : table) : table :=
  filter (fun r => negb (Row.id r =? i)) rows.

Definition execute_update (i : Z) (o : User.t) (rows : table) : result table :=
  match bind_row i o with
  | Some r' => Ok (sql_update i r' rows)
  | None => Raise OverflowError
  end.

Definition execute_delete (i : Z) (rows : table) : result table :=
  match of_Z i with
  | Some _ => Ok (sql_delete i rows)
  | None => Raise OverflowError
  end.

(** INSERT INTO users ...: the age is bound first, then the engine gives the
    row its key; [created_at] has the server default [now()]. *)
Definition execute_insert (now : Z) (o : User.t) (rows : table) : result (table * User.t) :=
  match of_Z (User.age o) with
  | None => Raise OverflowError
  | Some a =>
      let key := match User.id o with
                 | Some i => match of_Z i with
                             | Some k => Ok k
                             | None => Raise OverflowError
                             end
                 | None => match next_rowid now rows with
                           | Some k => Ok k
                           | None => Raise OperationalError
                           end
                 end in
      match key with
      | Raise e => Raise e
      | Ok k =>
          let created := match User.created_at o with
                         | Some t => Some t
                         | None => Some now
                         end in
          let row := Row.mk k (User.name o) (User.email o) a (User.sex o)
                            created (User.updated_at o) in
          Ok ((rows ++ [row])%list, instance_of row)
      end
  end.

(** ** The session *)

Inductive instance_state : Type :=
| Transient | Pending | Persistent | Dirty | Deleted | Detached.

Record cell : Type := mkCell { obj : User.t; state : instance_state }.

Definition ref : Type := nat.

Record Session : Type := mkSession {
  rows : table;          (* what the connection sees: the committed rows *)
  heap : list cell;      (* the instances handed out, by reference *)
  clock : Z              (* now() of the storage engine *)
}.

Definition handler (A : Type) : Type := Session -> result A * Session.

Definition ret {A} (a : A) : handler A := fun s => (Ok a, s).

Definition raise {A} (e : exn) : handler A := fun s => (Raise e, s).

Definition bind {A B} (m : handler A) (k : A -> handler B) : handler B :=
  fun s => match m s with
           | (Ok a, s') => k a s'
           | (Raise e, s') => (Raise e, s')
           end.

Notation "x <- m ;; k" := (bind m (fun x => k))
  (at level 61, m at next level, right associativity).
Notation "m ;; k" := (bind m (fun _ => k))
  (at level 61, right associativity).

(** [if v is not None: body] *)
Definition if_not_None {A} (v : option A) (body : A -> handler unit) : handler unit :=
  match v with
  | Some a => body a
  | None => ret tt
  end.

Fixpoint set_nth {A} (n : nat) (x : A) (l : list A) : list A :=
  match l, n with
  | [], _ => []
  | _ :: l', O => x :: l'
  | y :: l', S n' => y :: set_nth n' x l'
  end.

(** The identity map: the live instance that carries primary key [i]. *)
Fixpoint identity_lookup (i : Z) (h : list cell) (base : nat) : option ref :=
  match h with
  | [] => None
  | c :: h' =>
      match User.id (obj c), state c with
      | Some j, (Persistent | Dirty | Deleted) =>
          if j =? i then Some base else identity_lookup i h' (S base)
      | _, _ => identity_lookup i h' (S base)
      end
  end.

(** The filters the handlers use: [User.id == v] and [User.email == v]. *)
Inductive criterion : Type :=
| User_id_eq (v : Z)
| User_email_eq (v : string).

Definition binds (c : criterion) : bool :=
  match c with
  | User_id_eq v => in_int64 v
  | User_email_eq _ => true
  end.

Definition matches (c : criterion) (r : Row.t) : bool :=
  match c with
  | User_id_eq v => Row.id r =? v
  | User_email_eq v => String.eqb (Row.email r) v
  end.

(** [db.query(User).filter(c).first()]: the value of the filter is bound
    first, and an integer that does not fit fails there; the query then runs
    on the rows (the session does not autoflush); a row whose key is in the
    identity map comes back as the instance already there. *)
Definition query_first (c : criterion) : handler (option ref) :=
  fun s =>
    if binds c then
      match find (matches c) (rows s) with
      | None => (Ok None, s)
      | Some r =>
          match identity_lookup (Row.id r) (heap s) O with
          | Some x => (Ok (Some x), s)
          | None =>
              (Ok (Some (List.length (heap s))),
               mkSession (rows s)
                         (heap s ++ [mkCell (instance_of r) Persistent])%list
                         (clock s))
          end
      end
    else (Raise OverflowError, s).

(** [User(name=..., email=..., age=..., sex=...)] *)
Definition User_new (name email : string) (age : Z) (sex : string) : handler ref :=
  fun s =>
    (Ok (List.length (heap s)),
     mkSession (rows s)
               (heap s ++ [mkCell (User.mk None name email age sex None None) Transient])%list
               (clock s)).

Definition getattr {A} (x : ref) (field : User.t -> A) : handler A :=
  fun s =>
    match nth_error (heap s) x with
    | Some c => (Ok (field (obj c)), s)
    | None => (Raise ReferenceError, s)
    end.

(** Assignment to an attribute; a persistent instance becomes dirty. *)
Definition setattr (x : ref) (f : User.t -> User.t) : handler unit :=
  fun s =>
    match nth_error (heap s) x with
    | Some c =>
        let st := match state c with Persistent => Dirty | st => st end in
        (Ok tt, mkSession (rows s) (set_nth x (mkCell (f (obj c)) st) (heap s)) (clock s))
    | None => (Raise ReferenceError, s)
    end.

Definition with_name (v : string) (o : User.t) : User.t :=
  User.mk (User.id o) v (User.email o) (User.age o) (User.sex o)
          (User.created_at o) (User.updated_at o).
Definition with_email (v : string) (o : User.t) : User.t :=
  User.mk (User.id o) (User.name o) v (User.age o) (User.sex o)
          (User.created_at o) (User.updated_at o).
Definition with_age (v : Z) (o : User.t) : User.t :=
  User.mk (User.id o) (User.name o) (User.email o) v (User.sex o)
          (User.created_at o) (User.updated_at o).
Definition with_sex (v : string) (o : User.t) : User.t :=
  User.mk (User.id o) (User.name o) (User.email o) (User.age o) v
          (User.created_at o) (User.updated_at o).
Definition with_updated_at (v : option Z) (o : User.t) : User.t :=
  User.mk (User.id o) (User.name o) (User.email o) (User.age o) (User.sex o)
          (User.created_at o) v.

(** [func.now()]: the engine's clock, which stands still for the length of a
    request (the engine evaluates the expression when the row is written). *)
Definition func_now : handler Z := fun s => (Ok (clock s), s).

(** [db.add(x)]: a transient instance becomes pending; any other is left as
    it is. *)
Definition db_add (x : ref) : handler unit :=
  fun s =>
    match nth_error (heap s) x with
    | Some c =>
        match state c with
        | Transient =>
            (Ok tt, mkSession (rows s) (set_nth x (mkCell (obj c) Pending) (heap s)) (clock s))
        | _ => (Ok tt, s)
        end
    | None => (Raise ReferenceError, s)
    end.

(** [db.delete(x)]: [None] is not a mapped instance. *)
Definition db_delete (x : option ref) : handler unit :=
  fun s =>
    match x with
    | None => (Raise UnmappedInstanceError, s)
    | Some x =>
        match nth_error (heap s) x with
        | Some c =>
            match state c with
            | Persistent | Dirty =>
                (Ok tt, mkSession (rows s) (set_nth x (mkCell (obj c) Deleted) (heap s)) (clock s))
            | _ => (Raise InvalidRequestError, s)
            end
        | None => (Raise ReferenceError, s)
        end
    end.

(** The statement one instance contributes to a flush. *)
Definition flush_cell (now : Z) (rs : table) (c : cell) : result (table * cell) :=
  match state c with
  | Pending =>
      match execute_insert now (obj c) rs with
      | Ok (rs', o') => Ok (rs', mkCell o' Persistent)
      | Raise e => Raise e
      end
  | Dirty =>
      match User.id (obj c) with
      | Some i =>
          match execute_update i (obj c) rs with
          | Ok rs' => Ok (rs', mkCell (obj c) Persistent)
          | Raise e => Raise e
          end
      | None => Ok (rs, c)
      end
  | Deleted =>
      match User.id (obj c) with
      | Some i =>
          match execute_delete i rs with
          | Ok rs' => Ok (rs', mkCell (obj c) Detached)
          | Raise e => Raise e
          end
      | None => Ok (rs, c)
      end
  | _ => Ok (rs, c)
  end.

Fixpoint flush (now : Z) (rs : table) (h : list cell) : result (table * list cell) :=
  match h with
  | [] => Ok (rs, [])
  | c :: h' =>
      match flush_cell now rs c with
      | Raise e => Raise e
      | Ok (rs1, c1) =>
          match flush now rs1 h' with
          | Raise e => Raise e
          | Ok (rs2, h2) => Ok (rs2, c1 :: h2)
          end
      end
  end.

(** [db.commit()]: the only operation that changes the rows; when a statement
    of the flush fails the transaction is rolled back and the rows stay. *)
Definition db_commit : handler unit :=
  fun s =>
    match flush (clock s) (rows s) (heap s) with
    | Ok (rs, h) => (Ok tt, mkSession rs h (clock s))
    | Raise e => (Raise e, s)
    end.

(** [db.refresh(x)]: reload the instance from its row. *)
Definition db_refresh (x : ref) : handler unit :=
  fun s =>
    match nth_error (heap s) x with
    | Some c =>
        match User.id (obj c) with
        | Some i =>
            match find (fun r => Row.id r =? i) (rows s) with
            | Some r =>
                (Ok tt, mkSession (rows s)
                                  (set_nth x (mkCell (instance_of r) Persistent) (heap s))
                                  (clock s))
            | None => (Raise InvalidRequestError, s)
            end
        | None => (Raise InvalidRequestError, s)
        end
    | None => (Raise ReferenceError, s)
    end.

(** [UserRead.from_orm(x)] *)
Definition from_orm (x : ref) : handler UserRead.t :=
  fun s =>
    match nth_error (heap s) x with
    | Some c =>
        match User.id (obj c) with
        | Some i =>
            (Ok (UserRead.mk i (User.name (obj c)) (User.email (obj c)) (User.age (obj c))
                             (User.sex (obj c)) (User.created_at (obj c))
                             (User.updated_at (obj c))), s)
        | None => (Raise ValidationError, s)
        end
    | None => (Raise ReferenceError, s)
    end.

(** ** The dependency [get_db]

    [SessionLocal()] opens a session on the database; the handler runs at the
    [yield]; [db.close()] drops the instances whatever the outcome, and what
    stays is the rows. *)
Definition SessionLocal (now : Z) (database : table) : Session :=
  mkSession database [] now.

Definition get_db {A} (now : Z) (h : handler A) (database : table) : result A * table :=
  let '(r, s) := h (SessionLocal now database) in (r, rows s).

(** ** Route handlers *)

Definition create_user (user : UserCreate.t) : handler UserRead.t :=
  db_user <- query_first (User_email_eq (UserCreate.email user)) ;;
  if (match db_user with Some _ => true | None => false end)
  then raise (HTTPException 400 "Email already in use")
  else
  if negb (String.eqb (UserCreate.sex user) "Female")
     && negb (String.eqb (UserCreate.sex user) "Male")
  then raise (HTTPException 422 "Please choose Female or Male for sex")
  else
  if negb (str_in "@" (UserCreate.email user))
  then raise (HTTPException 422 "Please enter a valid email address")
  else
  db_user <- User_new (UserCreate.name user) (UserCreate.email user)
                      (UserCreate.age user) (UserCreate.sex user) ;;
  db_add db_user ;;
  db_commit ;;
  db_refresh db_user ;;
  from_orm db_user.

Definition read_user (user_id : Z) : handler UserRead.t :=
  db_user <- query_first (User_id_eq user_id) ;;
  match db_user with
  | None => raise (HTTPException 404 "User not found")
  | Some db_user => from_orm db_user
  end.

Definition read_user_by_email (email : string) : handler UserRead.t :=
  db_user <- query_first (User_email_eq email) ;;
  match db_user with
  | None => raise (HTTPException 404 "User not found")
  | Some db_user => from_orm db_user
  end.

Definition update_user (user_id : Z) (user_update : UserUpdate.t) : handler UserRead.t :=
  db_user <- query_first (User_id_eq user_id) ;;
  match db_user with
  | None => raise (HTTPException 404 "User not found")
  | Some db_user =>
      if_not_None (UserUpdate.name user_update) (fun v =>
        setattr db_user (with_name v)) ;;
      if_not_None (UserUpdate.email user_update) (fun v =>
        existing_user <- query_first (User_email_eq v) ;;
        registered <- match existing_user with
                      | None => ret false
                      | Some existing_user =>
                          i <- getattr existing_user User.id ;;
                          ret (negb (match i with Some i => i =? user_id | None => false end))
                      end ;;
        if registered
        then raise (HTTPException 400 "Email already registered")
        else setattr db_user (with_email v)) ;;
      if_not_None (UserUpdate.age user_update) (fun v =>
        if is_not (PyInt v) cls_int
        then raise (HTTPException 422 "Please enter a valid age")
        else setattr db_user (with_age v)) ;;
      if_not_None (UserUpdate.sex user_update) (fun v =>
        if truthy (py_or (PyBool (negb (String.eqb v "Female"))) (PyStr "Male"))
        then raise (HTTPException 422 "Please enter Female or Male")
        else setattr db_user (with_sex v)) ;;
      now <- func_now ;;
      setattr db_user (with_updated_at (Some now)) ;;
      db_add db_user ;;
      db_commit ;;
      db_refresh db_user ;;
      from_orm db_user
  end.

Definition delete_user (user_id : Z) : handler (list (string * string)) :=
  db_user <- query_first (User_id_eq user_id) ;;
  db_delete db_user ;;
  db_commit ;;
  ret [("message", "User has been deleted")].

(** ** Running example *)

Definition ann : UserCreate.t := UserCreate.mk "Ann" "ann@x.com" 30 "Female".
Definition bob : UserCreate.t := UserCreate.mk "Bob" "bob@x.com" 41 "Male".

Definition ann_row : Row.t :=
  Row.mk (i64 1) "Ann" "ann@x.com" (i64 30) "Female" (Some 100) None.
Definition bob_row : Row.t :=
  Row.mk (i64 2) "Bob" "bob@x.com" (i64 41) "Male" (Some 101) None.

Definition anne_row : Row.t :=
  Row.mk (i64 1) "Anne" "ann@x.com" (i64 30) "Female" (Some 100) (Some 102).

Definition db0 : table := [ann_row; bob_row].

(** ** What a request amounts to on the table

    The declared constraints of [users], and the outcome of each handler
    written directly on the rows; the theorems below show that the session
    computes exactly these. *)

Definition primary_key (db : table) : Prop := NoDup (map Row.id db).
Definition unique_email (db : table) : Prop := NoDup (map Row.email db).
Definition wf_table (db : table) : Prop := primary_key db /\ unique_email db.

Definition by_id (i : Z) (r : Row.t) : bool := Row.id r =? i.
Definition by_email (e : string) (r : Row.t) : bool := String.eqb (Row.email r) e.

Definition view_of (r : Row.t) : UserRead.t :=
  UserRead.mk (Row.id r) (Row.name r) (Row.email r) (Row.age r) (Row.sex r)
              (Row.created_at r) (Row.updated_at r).

(** The row a create appends, when the age fits and the engine has a key. *)
Definition inserted (now : Z) (user : UserCreate.t) (db : table) : Row.t :=
  Row.mk (match next_rowid now db with Some k => k | None => i64 0 end)
         (UserCreate.name user) (UserCreate.email user)
         (i64 (UserCreate.age user)) (UserCreate.sex user) (Some now) None.

(** The email test of [update_user]: a row carries the address and its key
    is not the target's. *)
Definition email_registered (user_id : Z) (v : option string) (db : table) : bool :=
  match v with
  | None => false
  | Some e =>
      match find (by_email e) db with
      | Some r => negb (Row.id r =? user_id)
      | None => false
      end
  end.

Definition supplied {A} (v : option A) (stored : A) : A :=
  match v with
  | Some a => a
  | None => stored
  end.

(** The target row after the name and email assignments and the stamp. *)
Definition patched (now : Z) (user_update : UserUpdate.t) (r : Row.t) : Row.t :=
  Row.mk (Row.stored_id r)
         (supplied (UserUpdate.name user_update) (Row.name r))
         (supplied (UserUpdate.email user_update) (Row.email r))
         (Row.stored_age r) (Row.sex r) (Row.created_at r) (Some now).

Definition deleted_message : list (string * string) :=
  [("message", "User has been deleted")].

Definition not_found : exn := HTTPException 404 "User not found".
Definition email_in_use : exn := HTTPException 400 "Email already in use".
Definition email_taken : exn := HTTPException 400 "Email already registered".
Definition invalid_age : exn := HTTPException 422 "Please enter a valid age".
Definition invalid_sex : exn := HTTPException 422 "Please enter Female or Male".

(** ** The application: its five routes, served one request after another *)

Inductive request : Type :=
| POST_users (user : UserCreate.t)                          (* POST /users/ *)
| GET_users (user_id : Z)                                   (* GET /users/{user_id} *)
| GET_user (email : string)                                 (* GET /user/?email= *)
| PATCH_users (user_id : Z) (user_update : UserUpdate.t)    (* PATCH /users/{user_id} *)
| DELETE_delete (user_id : Z).                              (* DELETE /delete/{user_id} *)

(** The database a request leaves behind; each request gets a session of its
    own from [get_db]. *)
Definition database_after (now : Z) (req : request) (db : table) : table :=
  match req with
  | POST_users user => snd (get_db now (create_user user) db)
  | GET_users user_id => snd (get_db now (read_user user_id) db)
  | GET_user email => snd (get_db now (read_user_by_email email) db)
  | PATCH_users user_id user_update => snd (get_db now (update_user user_id user_update) db)
  | DELETE_delete user_id => snd (get_db now (delete_user user_id) db)
  end.

(** Requests with the time at which each is served, oldest first. *)
Fixpoint serve (reqs : list (Z * request)) (db : table) : table :=
  match reqs with
  | [] => db
  | (now, req) :: reqs' => serve reqs' (database_after now req db)
  end.

(** Every stored sex is one of the two accepted literals. *)
Definition sex_valid (db : table) : Prop :=
  forall r, In r db -> Row.sex r = "Female" \/ Row.sex r = "Male".

Arguments next_rowid : simpl never.
Arguments sql_update : simpl never.
Arguments sql_delete : simpl never.
Arguments of_Z : simpl never.
Arguments bind_row : simpl never.
Arguments Row.id : simpl never.
Arguments Row.age : simpl never.
Arguments in_int64 : simpl never.

(** ** Facts about Python's operators *)

Section Operators.




(** The class object [int] is no instance of itself: the test of the age
    branch holds for every integer. *)
Lemma age_is_not_int (v : Z) : is_not (PyInt v) cls_int = true.
Proof. reflexivity. Qed.

(** ['Male'] is a non-empty string, hence true: so is the whole [or]. *)
Lemma sex_or_Male (v : string) :
  truthy (py_or (PyBool (negb (String.eqb v "Female"))) (PyStr "Male")) = true.
Proof. unfold py_or. simpl. now destruct (String.eqb v "Female"). Qed.

End Operators.

(** ** Facts about the engine's integers *)

Section Integers.

Lemma in_int64_spec (z : Z) :
  in_int64 z = true <-> int64_min <= z <= int64_max.
Proof. unfold in_int64. rewrite andb_true_iff, !Z.leb_le. tauto. Qed.



Lemma of_Z_Some (z : Z) (x : int64) : of_Z z = Some x -> to_Z x = z.
Proof.
  unfold of_Z. destruct (in_int64_dec z); [|discriminate].
  intros H. injection H as <-. reflexivity.
Qed.

(** A stored integer binds back to itself. *)
Lemma of_Z_to_Z (x : int64) : of_Z (to_Z x) = Some x.
Proof.
  destruct x as [z Hz]. unfold of_Z. simpl.
  destruct (in_int64_dec z) as [H|H]; [|congruence].
  f_equal. f_equal. apply UIP_dec. apply bool_dec.
Qed.

Lemma i64_of_Z (z : Z) (x : int64) : of_Z z = Some x -> i64 z = x.
Proof. unfold i64. now intros ->. Qed.

Lemma id_in_int64 (r : Row.t) : in_int64 (Row.id r) = true.
Proof. apply to_Z_range. Qed.

Lemma of_Z_id (r : Row.t) : of_Z (Row.id r) = Some (Row.stored_id r).
Proof. apply of_Z_to_Z. Qed.

Lemma of_Z_age (r : Row.t) : of_Z (Row.age r) = Some (Row.stored_age r).
Proof. apply of_Z_to_Z. Qed.

(** Writing back an instance that still has the key and the age of its row
    binds without error. *)
Lemma bind_row_stored (r : Row.t) (o : User.t) :
  User.age o = Row.age r ->
  bind_row (Row.id r) o
  = Some (Row.mk (Row.stored_id r) (User.name o) (User.email o) (Row.stored_age r)
                 (User.sex o) (User.created_at o) (User.updated_at o)).
Proof. intros H. unfold bind_row. now rewrite H, of_Z_id, of_Z_age. Qed.

End Integers.

(** ** Facts about the table *)

Section TableFacts.

Lemma find_none_iff {A} (p : A -> bool) (l : list A) :
  find p l = None <-> forall x, In x l -> p x = false.
Proof.
  split; [apply find_none|].
  induction l as [|a l IH]; simpl; intros H; [reflexivity|].
  rewrite (H a) by now left. apply IH. intros x Hx. apply H. now right.
Qed.

Lemma find_some_iff {A} (p : A -> bool) (l : list A) :
  (exists x, find p l = Some x) <-> exists x, In x l /\ p x = true.
Proof.
  split.
  - intros [x Hx]. exists x. now apply find_some in Hx.
  - intros (x & Hin & Hp). destruct (find p l) as [y|] eqn:Hf; [now exists y|].
    rewrite (find_none _ _ Hf x Hin) in Hp. discriminate.
Qed.

Lemma find_app_new {A} (p : A -> bool) (l : list A) (x : A) :
  find p l = None -> p x = true -> find p (l ++ [x]) = Some x.
Proof.
  induction l as [|a l IH]; simpl; intros Hn Hx.
  - now rewrite Hx.
  - destruct (p a); [discriminate | now apply IH].
Qed.

Lemma by_id_true (i : Z) (r : Row.t) : by_id i r = true <-> Row.id r = i.
Proof. apply Z.eqb_eq. Qed.

Lemma by_email_true (e : string) (r : Row.t) : by_email e r = true <-> Row.email r = e.
Proof. apply String.eqb_eq. Qed.

Lemma by_id_false (i : Z) (r : Row.t) : by_id i r = false <-> Row.id r <> i.
Proof. apply Z.eqb_neq. Qed.

Lemma by_email_false (e : string) (r : Row.t) : by_email e r = false <-> Row.email r <> e.
Proof. apply String.eqb_neq. Qed.

Lemma fold_max_le (l : list Z) (a : Z) :
  a <= fold_left Z.max l a /\ forall x, In x l -> x <= fold_left Z.max l a.
Proof.
  revert a; induction l as [|y l IH]; intros a; simpl.
  - split; [lia | contradiction].
  - destruct (IH (Z.max a y)) as [H1 H2]. split; [lia|].
    intros x [->|Hx]; [lia | now apply H2].
Qed.

Lemma largest_rowid_le (r0 : Row.t) (db : table) (r : Row.t) :
  In r (r0 :: db) -> Row.id r <= largest_rowid r0 db.
Proof.
  unfold largest_rowid.
  destruct (fold_max_le (map Row.id db) (Row.id r0)) as [H1 H2].
  intros [->|Hr]; [exact H1|].
  exact (H2 (Row.id r) (in_map Row.id _ _ Hr)).
Qed.

Lemma unused_find (db : table) (k : Z) :
  unused db k = true -> find (by_id k) db = None.
Proof.
  unfold unused. rewrite negb_true_iff. intros H.
  apply find_none_iff. intros r Hr.
  destruct (by_id k r) eqn:E; [|reflexivity].
  assert (existsb (fun r => Row.id r =? k) db = true)
    by (apply existsb_exists; now exists r).
  congruence.
Qed.

Lemma draw_rowid_unused (seed : Z) (db : table) (count attempt : nat) (k : int64) :
  draw_rowid seed db attempt count = Some k -> find (by_id (to_Z k)) db = None.
Proof.
  revert attempt. induction count as [|count IH]; simpl; intros attempt; [discriminate|].
  destruct (draw seed db attempt) as [k'|] eqn:Hd.
  - intros H. injection H as <-. unfold draw in Hd.
    destruct (unused db _) eqn:Hu; [|discriminate].
    apply of_Z_Some in Hd. rewrite Hd. now apply unused_find.
  - apply IH.
Qed.

(** The key the engine hands out is one no row has. *)
Lemma next_rowid_unused (seed : Z) (db : table) (k : int64) :
  next_rowid seed db = Some k -> find (by_id (to_Z k)) db = None.
Proof.
  unfold next_rowid. destruct db as [|r0 db]; [reflexivity|].
  destruct (largest_rowid r0 db <? int64_max) eqn:E.
  - intros H. apply of_Z_Some in H. apply find_none_iff. intros r Hr.
    apply by_id_false. apply largest_rowid_le in Hr. lia.
  - apply draw_rowid_unused.
Qed.


Lemma find_sql_update (i : Z) (r' : Row.t) (db : table) (r : Row.t) :
  find (by_id i) db = Some r ->
  Row.id r' = i ->
  find (by_id i) (sql_update i r' db) = Some r'.
Proof.
  unfold sql_update, by_id. intros Hf Hid.
  induction db as [|a db IH]; simpl in *; [discriminate|].
  destruct (Row.id a =? i) eqn:Ha; simpl.
  - now rewrite Hid, Z.eqb_refl.
  - rewrite Ha. now apply IH.
Qed.

Lemma in_sql_delete (i : Z) (db : table) (r : Row.t) :
  In r (sql_delete i db) <-> In r db /\ Row.id r <> i.
Proof.
  unfold sql_delete. rewrite filter_In, negb_true_iff, Z.eqb_neq. tauto.
Qed.

Lemma find_sql_delete (i : Z) (db : table) : find (by_id i) (sql_delete i db) = None.
Proof.
  apply find_none_iff. intros r Hr. apply in_sql_delete in Hr. now apply by_id_false.
Qed.

(** Rows other than the target go through an update untouched. *)
Lemma in_sql_update_other (i : Z) (r' : Row.t) (db : table) (r : Row.t) :
  Row.id r' = i ->
  Row.id r <> i -> (In r (sql_update i r' db) <-> In r db).
Proof.
  intros Hid Hr. unfold sql_update. rewrite in_map_iff. split.
  - intros (x & Hx & Hin). destruct (Row.id x =? i) eqn:E.
    + subst r. contradiction.
    + now subst x.
  - intros Hin. exists r. split; [|exact Hin].
    apply Z.eqb_neq in Hr. now rewrite Hr.
Qed.


(** A column declared unique identifies the row. *)
Lemma NoDup_map_inj {A B} (f : A -> B) (l : list A) (a b : A) :
  NoDup (map f l) -> In a l -> In b l -> f a = f b -> a = b.
Proof.
  induction l as [|x l IH]; simpl; [contradiction|].
  intros Hnd Ha Hb Hab. inversion Hnd as [|? ? Hx Hl]; subst.
  destruct Ha as [->|Ha], Hb as [->|Hb]; try reflexivity.
  - exfalso. apply Hx. rewrite Hab. now apply in_map.
  - exfalso. apply Hx. rewrite <- Hab. now apply in_map.
  - now apply IH.
Qed.

Lemma find_by_id_unique (db : table) (r : Row.t) :
  primary_key db -> In r db -> find (by_id (Row.id r)) db = Some r.
Proof.
  intros Hpk Hr.
  destruct (find (by_id (Row.id r)) db) as [x|] eqn:Hf.
  - apply find_some in Hf as [Hx Hid]. apply by_id_true in Hid.
    f_equal. now apply (NoDup_map_inj Row.id db).
  - apply (find_none _ _ Hf) in Hr. apply by_id_false in Hr. congruence.
Qed.

Lemma find_by_email_unique (db : table) (r : Row.t) :
  unique_email db -> In r db -> find (by_email (Row.email r)) db = Some r.
Proof.
  intros Hu Hr.
  destruct (find (by_email (Row.email r)) db) as [x|] eqn:Hf.
  - apply find_some in Hf as [Hx He]. apply by_email_true in He.
    f_equal. now apply (NoDup_map_inj Row.email db).
  - apply (find_none _ _ Hf) in Hr. apply by_email_false in Hr. congruence.
Qed.

Lemma find_by_id_exists (i : Z) (db : table) :
  (exists r, In r db /\ Row.id r = i) -> exists r, find (by_id i) db = Some r.
Proof.
  intros (r & Hr & Hid). apply find_some_iff. exists r. split; [exact Hr|].
  now apply by_id_true.
Qed.

Lemma find_by_email_exists (e : string) (db : table) :
  (exists r, In r db /\ Row.email r = e) -> exists r, find (by_email e) db = Some r.
Proof.
  intros (r & Hr & He). apply find_some_iff. exists r. split; [exact Hr|].
  now apply by_email_true.
Qed.

End TableFacts.

(** ** Facts about the session *)

Section SessionFacts.

Variable s : Session.

(** Every operation but [db_commit] leaves the rows as they are. *)
Lemma query_first_rows (c : criterion) : rows (snd (query_first c s)) = rows s.
Proof.
  unfold query_first. destruct (binds c); [|reflexivity].
  destruct (find _ (rows s)); [|reflexivity].
  now destruct (identity_lookup _ _ _).
Qed.

Lemma User_new_rows (n e : string) (a : Z) (x : string) :
  rows (snd (User_new n e a x s)) = rows s.
Proof. reflexivity. Qed.

Lemma getattr_rows {A} (x : ref) (field : User.t -> A) :
  rows (snd (getattr x field s)) = rows s.
Proof. unfold getattr. now destruct (nth_error _ _). Qed.

Lemma setattr_rows (x : ref) (f : User.t -> User.t) :
  rows (snd (setattr x f s)) = rows s.
Proof. unfold setattr. now destruct (nth_error _ _). Qed.

Lemma db_add_rows (x : ref) : rows (snd (db_add x s)) = rows s.
Proof.
  unfold db_add. destruct (nth_error _ _) as [c|]; [|reflexivity].
  now destruct (state c).
Qed.

Lemma db_delete_rows (x : option ref) : rows (snd (db_delete x s)) = rows s.
Proof.
  unfold db_delete. destruct x as [x|]; [|reflexivity].
  destruct (nth_error _ _) as [c|]; [|reflexivity].
  now destruct (state c).
Qed.

Lemma db_refresh_rows (x : ref) : rows (snd (db_refresh x s)) = rows s.
Proof.
  unfold db_refresh. destruct (nth_error _ _) as [c|]; [|reflexivity].
  destruct (User.id (obj c)); [|reflexivity].
  now destruct (find _ _).
Qed.

Lemma from_orm_rows (x : ref) : rows (snd (from_orm x s)) = rows s.
Proof.
  unfold from_orm. destruct (nth_error _ _) as [c|]; [|reflexivity].
  now destruct (User.id (obj c)).
Qed.

(** A commit that fails is rolled back. *)
Lemma db_commit_failure (e : exn) (s' : Session) :
  db_commit s = (Raise e, s') -> s' = s.
Proof.
  unfold db_commit. destruct (flush _ _ _) as [[rs h]|e']; [discriminate|].
  now intros H; injection H as _ <-.
Qed.

End SessionFacts.

(** ** The handlers, run in a fresh session, on the table

    One equation per route: what the request returns and what it leaves in
    the database, as a function of the rows it started from. *)

Section Runs.

Variable now : Z.
Variable db : table.

Lemma read_user_run (user_id : Z) :
  get_db now (read_user user_id) db =
  if in_int64 user_id then
    match find (by_id user_id) db with
    | None => (Raise not_found, db)
    | Some r => (Ok (view_of r), db)
    end
  else (Raise OverflowError, db).
Proof.
  unfold get_db, read_user, bind, query_first. cbn.
  destruct (in_int64 user_id); [|reflexivity].
  change (matches (User_id_eq user_id)) with (by_id user_id).
  now destruct (find (by_id user_id) db).
Qed.

Lemma read_user_by_email_run (email : string) :
  get_db now (read_user_by_email email) db =
  match find (by_email email) db with
  | None => (Raise not_found, db)
  | Some r => (Ok (view_of r), db)
  end.
Proof.
  unfold get_db, read_user_by_email, bind, query_first. cbn.
  change (matches (User_email_eq email)) with (by_email email).
  now destruct (find (by_email email) db).
Qed.

Lemma create_user_run (user : UserCreate.t) :
  get_db now (create_user user) db =
  match find (by_email (UserCreate.email user)) db with
  | Some _ => (Raise email_in_use, db)
  | None =>
      if negb (String.eqb (UserCreate.sex user) "Female")
         && negb (String.eqb (UserCreate.sex user) "Male")
      then (Raise (HTTPException 422 "Please choose Female or Male for sex"), db)
      else if negb (str_in "@" (UserCreate.email user))
      then (Raise (HTTPException 422 "Please enter a valid email address"), db)
      else match of_Z (UserCreate.age user) with
           | None => (Raise OverflowError, db)
           | Some _ =>
               match next_rowid now db with
               | None => (Raise OperationalError, db)
               | Some _ =>
                   (Ok (view_of (inserted now user db)),
                    (db ++ [inserted now user db])%list)
               end
           end
  end.
Proof.
  unfold get_db, create_user, bind, query_first. cbn.
  change (matches (User_email_eq (UserCreate.email user)))
    with (by_email (UserCreate.email user)).
  destruct (find _ db) as [r|]; [reflexivity|].
  destruct (negb _ && negb _); [reflexivity|].
  destruct (negb (str_in _ _)); [reflexivity|].
  unfold db_commit, inserted. cbn. unfold execute_insert. cbn.
  destruct (of_Z (UserCreate.age user)) as [a|] eqn:Ha; [|reflexivity].
  rewrite (i64_of_Z _ _ Ha).
  destruct (next_rowid now db) as [k|] eqn:Hk; [|reflexivity].
  cbn.
  change (fun r : Row.t => Row.id r =? Row.id
            (Row.mk k (UserCreate.name user) (UserCreate.email user) a
                    (UserCreate.sex user) (Some now) None))
    with (by_id (to_Z k)).
  rewrite (find_app_new _ _ _ (next_rowid_unused _ _ _ Hk)) by (now apply by_id_true).
  reflexivity.
Qed.

Lemma update_user_run (user_id : Z) (user_update : UserUpdate.t) :
  get_db now (update_user user_id user_update) db =
  if in_int64 user_id then
    match find (by_id user_id) db with
    | None => (Raise not_found, db)
    | Some r =>
        if email_registered user_id (UserUpdate.email user_update) db
        then (Raise email_taken, db)
        else match UserUpdate.age user_update with
             | Some _ => (Raise invalid_age, db)
             | None =>
                 match UserUpdate.sex user_update with
                 | Some _ => (Raise invalid_sex, db)
                 | None =>
                     (Ok (view_of (patched now user_update r)),
                      sql_update user_id (patched now user_update r) db)
                 end
             end
    end
  else (Raise OverflowError, db).
Proof.
  unfold get_db, update_user, bind, query_first. cbn.
  destruct (in_int64 user_id); [|reflexivity].
  change (matches (User_id_eq user_id)) with (by_id user_id).
  destruct (find (by_id user_id) db) as [r|] eqn:Hf; [|reflexivity].
  pose proof (find_some _ _ Hf) as [Hin Hid]. apply by_id_true in Hid. subst user_id.
  assert (Hre : forall r', Row.id r' = Row.id r ->
                           find (by_id (Row.id r)) (sql_update (Row.id r) r' db) = Some r')
    by (intros r' Hr'; exact (find_sql_update _ r' _ _ Hf Hr')).
  destruct user_update as [n e a x]. unfold email_registered, patched. cbn.
  destruct n as [n|], e as [e|]; cbn;
    try (change (matches (User_email_eq e)) with (by_email e);
         destruct (find (by_email e) db) as [r0|]; cbn;
         [destruct (Row.id r =? Row.id r0) eqn:Hrr; cbn;
          [apply Z.eqb_eq in Hrr; rewrite <- Hrr; rewrite Z.eqb_refl; cbn
          |rewrite Z.eqb_sym, Hrr; cbn; reflexivity]|]);
    destruct a as [a|]; cbn; try reflexivity;
    destruct x as [x|]; cbn; try (rewrite sex_or_Male; reflexivity);
    unfold db_commit; cbn; unfold execute_update;
    rewrite bind_row_stored by reflexivity; cbn;
    change (fun r1 : Row.t => Row.id r1 =? Row.id r) with (by_id (Row.id r));
    rewrite Hre by reflexivity; reflexivity.
Qed.

Lemma delete_user_run (user_id : Z) :
  get_db now (delete_user user_id) db =
  if in_int64 user_id then
    match find (by_id user_id) db with
    | None => (Raise UnmappedInstanceError, db)
    | Some _ => (Ok deleted_message, sql_delete user_id db)
    end
  else (Raise OverflowError, db).
Proof.
  unfold get_db, delete_user, bind, query_first. cbn.
  destruct (in_int64 user_id); [|reflexivity].
  change (matches (User_id_eq user_id)) with (by_id user_id).
  destruct (find (by_id user_id) db) as [r|] eqn:Hf; [|reflexivity].
  apply find_some in Hf as [_ Hid]. apply by_id_true in Hid.
  cbn. unfold db_commit. cbn. unfold execute_delete.
  rewrite of_Z_id. cbn. now rewrite Hid.
Qed.

End Runs.
(** ** Properties of the routes *)

Ltac table_row_facts :=
  repeat match goal with
         | H : find _ _ = Some _ |- _ => apply find_some in H as [? ?]
         | H : by_id _ _ = true |- _ => apply by_id_true in H
         | H : by_email _ _ = true |- _ => apply by_email_true in H
         end.

Ltac concrete_table :=
  repeat (constructor; vm_compute; try (intuition discriminate)).

Lemma in_int64_bounds (z : Z) :
  in_int64 z = true <-> - 2 ^ 63 <= z < 2 ^ 63.
Proof. rewrite in_int64_spec. unfold int64_min, int64_max. lia. Qed.

Lemma not_in_int64_bounds (z : Z) :
  in_int64 z = false <-> ~ (- 2 ^ 63 <= z < 2 ^ 63).
Proof. rewrite <- in_int64_bounds. now destruct (in_int64 z). Qed.

(** An id that some row has is one the engine can hold. *)
Lemma find_in_int64 (db : table) (i : Z) (r : Row.t) :
  find (by_id i) db = Some r -> in_int64 i = true.
Proof.
  intros Hf. apply find_some in Hf as [_ Hid]. apply by_id_true in Hid.
  rewrite <- Hid. apply id_in_int64.
Qed.

(** C8, amended. [read_user] signals Not-Found exactly when the id fits the
    engine's signed 64-bit range and no row has it; an id that does not fit
    fails with [OverflowError] where it is bound to the lookup.
    [read_user_by_email] signals Not-Found exactly when no row carries exactly
    the given address.  Otherwise each returns the full view of a row that
    matches, and the database is as it was. *)
Theorem read_not_found_exactly (now : Z) (db : table) :
  (forall user_id,
      (fst (get_db now (read_user user_id) db)
       = Raise (HTTPException 404 "User not found")
       <-> - 2 ^ 63 <= user_id < 2 ^ 63 /\ forall r, In r db -> Row.id r <> user_id) /\
      (~ (- 2 ^ 63 <= user_id < 2 ^ 63) ->
       get_db now (read_user user_id) db = (Raise OverflowError, db)) /\
      ((exists r, In r db /\ Row.id r = user_id) ->
       exists r, In r db /\ Row.id r = user_id /\
                 get_db now (read_user user_id) db = (Ok (view_of r), db))) /\
  (forall email,
      (fst (get_db now (read_user_by_email email) db)
       = Raise (HTTPException 404 "User not found")
       <-> forall r, In r db -> Row.email r <> email) /\
      ((exists r, In r db /\ Row.email r = email) ->
       exists r, In r db /\ Row.email r = email /\
                 get_db now (read_user_by_email email) db = (Ok (view_of r), db))).
Proof.
  split.
  - intros user_id. rewrite read_user_run.
    destruct (in_int64 user_id) eqn:Hrange.
    + apply in_int64_bounds in Hrange.
      destruct (find (by_id user_id) db) as [r|] eqn:Hf.
      * pose proof Hf as Hf'. table_row_facts. split; [|split].
        -- split; [discriminate|]. intros [_ Hno]. now apply Hno in H.
        -- intros Hout. contradiction.
        -- intros _. now exists r.
      * pose proof (proj1 (find_none_iff _ _) Hf) as Hno. split; [|split].
        -- split; [|reflexivity]. intros _. split; [exact Hrange|].
           intros r Hr. now apply by_id_false, Hno.
        -- intros Hout. contradiction.
        -- intros (r & Hr & Hid). apply Hno, by_id_false in Hr. contradiction.
    + apply not_in_int64_bounds in Hrange. split; [|split].
      * split; [discriminate | intros [Hin _]; contradiction].
      * reflexivity.
      * intros (r & Hr & Hid). exfalso. apply Hrange, in_int64_bounds.
        rewrite <- Hid. apply id_in_int64.
  - intros email. rewrite read_user_by_email_run.
    destruct (find (by_email email) db) as [r|] eqn:Hf.
    + pose proof Hf as Hf'. table_row_facts. split.
      * split; [discriminate|]. intros Hno. now apply Hno in H.
      * intros _. now exists r.
    + pose proof (proj1 (find_none_iff _ _) Hf) as Hno. split.
      * split; [|reflexivity]. intros _ r Hr. now apply by_email_false, Hno.
      * intros (r & Hr & He). apply Hno, by_email_false in Hr. contradiction.
Qed.

(** C8 as stated fails: no row of the table has the id 2^63, and
    [read_user] does not signal Not-Found for it: the lookup fails with
    [OverflowError]. *)
Lemma read_not_found_counterexample :
  (forall r, In r db0 -> Row.id r <> 2 ^ 63) /\
  get_db 500 (read_user (2 ^ 63)) db0 = (Raise OverflowError, db0).
Proof.
  split; [|reflexivity].
  intros r [<-|[<-|[]]]; vm_compute; discriminate.
Qed.

(** C4. When the address of the create input is the address of some row,
    [create_user] signals Conflict (400) and the database is as it was,
    whatever the name, age and sex and whether or not the address has an
    [@]: the uniqueness test comes first. *)
Theorem create_user_email_in_use (now : Z) (db : table) (user : UserCreate.t) :
  (exists r, In r db /\ Row.email r = UserCreate.email user) ->
  get_db now (create_user user) db
  = (Raise (HTTPException 400 "Email already in use"), db).
Proof.
  intros (r & Hr & He). rewrite create_user_run.
  destruct (find _ db) eqn:Hf; [reflexivity|].
  apply (find_none _ _ Hf), by_email_false in Hr. contradiction.
Qed.

Lemma create_user_email_in_use_witness :
  (exists r, In r db0 /\ Row.email r = "ann@x.com") /\
  get_db 500 (create_user (UserCreate.mk "Eve" "ann@x.com" (-3) "Other")) db0
  = (Raise (HTTPException 400 "Email already in use"), db0).
Proof.
  assert (H : exists r, In r db0 /\ Row.email r = "ann@x.com")
    by (exists ann_row; split; [now left | reflexivity]).
  split; [exact H|].
  exact (create_user_email_in_use 500 db0 (UserCreate.mk "Eve" "ann@x.com" (-3) "Other") H).
Defined.

(** C5, amended. For an id that no row has, [delete_user] signals no
    Not-Found.  When the id fits the engine's signed 64-bit range the lookup
    yields [None], [db.delete] is handed that [None] and fails on it; when
    the id does not fit, the lookup itself fails with [OverflowError].  In
    both cases the failure is no [HTTPException] and nothing is removed. *)
Theorem delete_user_missing_row (now : Z) (db : table) (user_id : Z) :
  (forall r, In r db -> Row.id r <> user_id) ->
  (- 2 ^ 63 <= user_id < 2 ^ 63 ->
   query_first (User_id_eq user_id) (SessionLocal now db)
   = (Ok None, SessionLocal now db) /\
   db_delete None (SessionLocal now db)
   = (Raise UnmappedInstanceError, SessionLocal now db) /\
   get_db now (delete_user user_id) db = (Raise UnmappedInstanceError, db)) /\
  (~ (- 2 ^ 63 <= user_id < 2 ^ 63) ->
   query_first (User_id_eq user_id) (SessionLocal now db)
   = (Raise OverflowError, SessionLocal now db) /\
   get_db now (delete_user user_id) db = (Raise OverflowError, db)) /\
  forall status_code detail,
    fst (get_db now (delete_user user_id) db) <> Raise (HTTPException status_code detail).
Proof.
  intros Hno.
  assert (Hf : find (by_id user_id) db = None).
  { apply find_none_iff. intros r Hr. now apply by_id_false, Hno. }
  split; [|split].
  - intros Hrange. apply in_int64_bounds in Hrange. repeat split.
    + unfold query_first. cbn. rewrite Hrange.
      change (matches (User_id_eq user_id)) with (by_id user_id).
      now rewrite Hf.
    + now rewrite delete_user_run, Hrange, Hf.
  - intros Hrange. apply not_in_int64_bounds in Hrange. split.
    + unfold query_first. cbn. now rewrite Hrange.
    + now rewrite delete_user_run, Hrange.
  - intros c d. rewrite delete_user_run, Hf. now destruct (in_int64 user_id).
Qed.

Lemma delete_user_missing_row_witness :
  (forall r, In r db0 -> Row.id r <> 7) /\
  get_db 500 (delete_user 7) db0 = (Raise UnmappedInstanceError, db0).
Proof.
  assert (H : forall r, In r db0 -> Row.id r <> 7)
    by (intros r [<-|[<-|[]]]; vm_compute; discriminate).
  split; [exact H|].
  refine (proj2 (proj2 (proj1 (delete_user_missing_row 500 db0 7 H) _))).
  lia.
Defined.

(** C5 as stated fails: no row of the table has the id 2^63, and
    [delete_user] neither obtains an empty result nor reaches [db.delete]:
    the lookup fails with [OverflowError]. *)
Lemma delete_user_missing_row_counterexample :
  (forall r, In r db0 -> Row.id r <> 2 ^ 63) /\
  query_first (User_id_eq (2 ^ 63)) (SessionLocal 500 db0)
  = (Raise OverflowError, SessionLocal 500 db0) /\
  get_db 500 (delete_user (2 ^ 63)) db0 = (Raise OverflowError, db0).
Proof.
  split; [|split; reflexivity].
  intros r [<-|[<-|[]]]; vm_compute; discriminate.
Qed.

(** C9. For an id that a row has, [delete_user] removes the rows with that
    id and no other, returns the body [{"message": "User has been deleted"}],
    and a later [read_user] with the same id signals Not-Found. *)
Theorem delete_user_removes_row (now later : Z) (db : table) (user_id : Z) :
  (exists r, In r db /\ Row.id r = user_id) ->
  exists db',
    get_db now (delete_user user_id) db
    = (Ok [("message", "User has been deleted")], db') /\
    (forall r, In r db' <-> In r db /\ Row.id r <> user_id) /\
    get_db later (read_user user_id) db'
    = (Raise (HTTPException 404 "User not found"), db').
Proof.
  intros Hex. apply find_by_id_exists in Hex as [r Hf].
  exists (sql_delete user_id db). split; [|split].
  - now rewrite delete_user_run, (find_in_int64 _ _ _ Hf), Hf.
  - intros x. apply in_sql_delete.
  - now rewrite read_user_run, (find_in_int64 _ _ _ Hf), find_sql_delete.
Qed.

Lemma delete_user_removes_row_witness :
  (exists r, In r db0 /\ Row.id r = 1) /\
  exists db',
    get_db 500 (delete_user 1) db0 = (Ok [("message", "User has been deleted")], db') /\
    (forall r, In r db' <-> In r db0 /\ Row.id r <> 1) /\
    get_db 501 (read_user 1) db' = (Raise (HTTPException 404 "User not found"), db').
Proof.
  assert (H : exists r, In r db0 /\ Row.id r = 1)
    by (exists ann_row; split; [now left | reflexivity]).
  split; [exact H|].
  exact (delete_user_removes_row 500 501 db0 1 H).
Defined.






(** C10. A request to create or to update that fails leaves the database
    exactly as it was.  The typed failures (Conflict, Not-Found, Validation)
    are raised before [db_commit]; an integer the engine cannot hold fails at
    the lookup or inside the commit, which is rolled back. *)
Theorem failure_leaves_database (now : Z) (db : table) :
  (forall user e db',
      get_db now (create_user user) db = (Raise e, db') -> db' = db) /\
  (forall user_id user_update e db',
      get_db now (update_user user_id user_update) db = (Raise e, db') -> db' = db).
Proof.
  split.
  - intros user e db'. rewrite create_user_run.
    destruct (find _ db); [congruence|].
    destruct (negb _ && negb _); [congruence|].
    destruct (negb (str_in _ _)); [congruence|].
    destruct (of_Z _); [|congruence].
    destruct (next_rowid _ _); [discriminate | congruence].
  - intros user_id user_update e db'. rewrite update_user_run.
    destruct (in_int64 _); [|congruence].
    destruct (find _ db); [|congruence].
    destruct (email_registered _ _ _); [congruence|].
    destruct (UserUpdate.age _); [congruence|].
    destruct (UserUpdate.sex _); [congruence | discriminate].
Qed.



(** *** The age and sex branches of [update_user] *)

(** With the age present the request never succeeds: [age is not int] holds
    for every integer, so the age branch raises unless the address test has
    raised before it. *)
Lemma update_user_age_rejected (now : Z) (db : table) (user_id : Z)
      (user_update : UserUpdate.t) (v : Z) :
  (exists r, In r db /\ Row.id r = user_id) ->
  UserUpdate.age user_update = Some v ->
  exists e,
    get_db now (update_user user_id user_update) db = (Raise e, db) /\
    (e = HTTPException 400 "Email already registered" \/
     e = HTTPException 422 "Please enter a valid age") /\
    (UserUpdate.email user_update = None ->
     e = HTTPException 422 "Please enter a valid age").
Proof.
  intros Hex Hage. apply find_by_id_exists in Hex as [r Hf].
  rewrite update_user_run, (find_in_int64 _ _ _ Hf), Hf, Hage.
  destruct (UserUpdate.email user_update) as [a|] eqn:He.
  - destruct (email_registered user_id (Some a) db);
      eexists; (split; [reflexivity|]); (split; [|discriminate]); [now left | now right].
  - exists invalid_age. repeat split. now right.
Qed.

(** C2. The code at the update [{"age": 31}] of user 1, whose stored age is
    30: the age test takes the reject branch, Validation (422) is signalled
    and the stored age stays 30, where the specification has the valid branch
    taken and 31 written. *)
Lemma update_user_age_failing_input :
  get_db 500 (update_user 1 (UserUpdate.mk None None (Some 31) None)) db0
  = (Raise (HTTPException 422 "Please enter a valid age"), db0) /\
  get_db 501 (read_user 1) db0
  = (Ok (UserRead.mk 1 "Ann" "ann@x.com" 30 "Female" (Some 100) None), db0).
Proof. split; reflexivity. Qed.


(** The two accepted literals are rejected like any other string. *)
Lemma update_user_sex_literals_rejected :
  get_db 500 (update_user 1 (UserUpdate.mk None None None (Some "Male"))) db0
  = (Raise (HTTPException 422 "Please enter Female or Male"), db0) /\
  get_db 500 (update_user 1 (UserUpdate.mk None None None (Some "Female"))) db0
  = (Raise (HTTPException 422 "Please enter Female or Male"), db0).
Proof. split; reflexivity. Qed.




(** ** The declared constraints are kept by the handlers themselves

    The table declares a primary key and a unique address.  The handlers
    never lean on the engine to enforce them: whatever a request leaves in a
    table that met the constraints meets them again. *)

Section Constraints.

Lemma NoDup_snoc {A} (l : list A) (x : A) :
  NoDup l -> ~ In x l -> NoDup (l ++ [x]).
Proof.
  induction l as [|a l IH]; simpl; intros Hnd Hx.
  - constructor; [easy | constructor].
  - inversion Hnd as [|? ? Ha Hl]; subst. constructor.
    + rewrite in_app_iff. simpl. intuition congruence.
    + apply IH; [exact Hl | tauto].
Qed.

(** Deleting rows cannot break the uniqueness of a column. *)
Lemma column_sql_delete {B} (col : Row.t -> B) (i : Z) (db : table) :
  NoDup (map col db) -> NoDup (map col (sql_delete i db)).
Proof.
  unfold sql_delete. induction db as [|a db IH]; simpl; intros Hnd; [constructor|].
  inversion Hnd as [|? ? Ha Hdb]; subst.
  destruct (negb (Row.id a =? i)); simpl; [constructor|]; auto.
  intros Hin. apply Ha. apply in_map_iff in Hin as (x & Hx & Hin).
  apply filter_In in Hin as [Hin _]. rewrite <- Hx. now apply in_map.
Qed.

Lemma map_id_sql_update (i : Z) (r' : Row.t) (db : table) :
  Row.id r' = i -> map Row.id (sql_update i r' db) = map Row.id db.
Proof.
  intros Hid. unfold sql_update. rewrite map_map. apply map_ext. intros r.
  destruct (Row.id r =? i) eqn:E; [|reflexivity].
  apply Z.eqb_eq in E. congruence.
Qed.

Lemma sql_update_absent (i : Z) (r' : Row.t) (db : table) :
  ~ In i (map Row.id db) -> sql_update i r' db = db.
Proof.
  unfold sql_update. induction db as [|a db IH]; simpl; intros Hno; [reflexivity|].
  destruct (Row.id a =? i) eqn:E.
  - apply Z.eqb_eq in E. tauto.
  - f_equal. apply IH. tauto.
Qed.

(** An address that only the target may carry can be written to the target. *)
Lemma unique_email_sql_update (i : Z) (r' : Row.t) (db : table) :
  primary_key db ->
  unique_email db ->
  (forall x, In x db -> Row.email x = Row.email r' -> Row.id x = i) ->
  unique_email (sql_update i r' db).
Proof.
  unfold primary_key, unique_email.
  induction db as [|a db IH]; intros Hpk Hue Hfree; [constructor|].
  simpl in Hpk, Hue. inversion Hpk as [|? ? Hida Hpk']; subst.
  inversion Hue as [|? ? Hema Hue']; subst.
  unfold sql_update. simpl. fold (sql_update i r' db).
  destruct (Row.id a =? i) eqn:E.
  - apply Z.eqb_eq in E. subst i.
    rewrite (sql_update_absent _ r' db Hida). constructor; [|exact Hue'].
    intros Hin. apply in_map_iff in Hin as (x & Hx & Hin).
    apply Hida. rewrite <- (Hfree x (or_intror Hin) Hx). now apply in_map.
  - apply Z.eqb_neq in E. constructor.
    + intros Hin. apply in_map_iff in Hin as (x & Hx & Hin).
      unfold sql_update in Hin. apply in_map_iff in Hin as (y & Hy & Hin).
      destruct (Row.id y =? i).
      * subst x. apply E. apply Hfree; [now left | now symmetry].
      * subst y. apply Hema. rewrite <- Hx. now apply in_map.
    + apply IH; [exact Hpk' | exact Hue' |].
      intros x Hx. apply Hfree. now right.
Qed.

Lemma create_user_keeps_constraints (now : Z) (db : table) (user : UserCreate.t) :
  wf_table db -> wf_table (snd (get_db now (create_user user) db)).
Proof.
  intros Hwf. pose proof Hwf as [Hpk Hue]. rewrite create_user_run.
  destruct (find _ db) eqn:Hf; [exact Hwf|].
  destruct (negb _ && negb _); [exact Hwf|].
  destruct (negb (str_in _ _)); [exact Hwf|].
  destruct (of_Z _) as [a|] eqn:Ha; [|exact Hwf].
  destruct (next_rowid now db) as [k|] eqn:Hk; [|exact Hwf].
  pose proof (next_rowid_unused _ _ _ Hk) as Hunused.
  assert (Hid : Row.id (inserted now user db) = to_Z k)
    by (unfold inserted; now rewrite Hk).
  simpl. split; unfold primary_key, unique_email; rewrite map_app; simpl;
    apply NoDup_snoc; auto.
  - intros Hin. apply in_map_iff in Hin as (x & Hx & Hin).
    apply (find_none _ _ Hunused), by_id_false in Hin. congruence.
  - intros Hin. apply in_map_iff in Hin as (x & Hx & Hin).
    apply (find_none _ _ Hf), by_email_false in Hin. contradiction.
Qed.

Lemma update_user_keeps_constraints (now : Z) (db : table) (user_id : Z)
      (user_update : UserUpdate.t) :
  wf_table db -> wf_table (snd (get_db now (update_user user_id user_update) db)).
Proof.
  intros Hwf. pose proof Hwf as [Hpk Hue]. rewrite update_user_run.
  destruct (in_int64 _); [|exact Hwf].
  destruct (find _ db) as [r|] eqn:Hf; [|exact Hwf].
  destruct (email_registered _ _ _) eqn:Hreg; [exact Hwf|].
  destruct (UserUpdate.age _); [exact Hwf|].
  destruct (UserUpdate.sex _); [exact Hwf|].
  simpl. pose proof (find_some _ _ Hf) as [Hin Hid]. apply by_id_true in Hid.
  split.
  - unfold primary_key. now rewrite map_id_sql_update.
  - apply unique_email_sql_update; [exact Hpk | exact Hue |].
    intros x Hx. unfold email_registered in Hreg.
    destruct user_update as [n [e|] a s]; simpl in *.
    + intros He;
        (destruct (find (by_email e) db) as [r0|] eqn:Hfe;
         [ pose proof (find_some _ _ Hfe) as [Hin0 He0]; apply by_email_true in He0;
           apply negb_false_iff, Z.eqb_eq in Hreg;
           rewrite (NoDup_map_inj Row.email db x r0 Hue Hx Hin0) by congruence;
           exact Hreg
         | apply (find_none _ _ Hfe), by_email_false in Hx; contradiction ]).
    + intros He;
        now rewrite (NoDup_map_inj Row.email db x r Hue Hx Hin He).
Qed.

Lemma delete_user_keeps_constraints (now : Z) (db : table) (user_id : Z) :
  wf_table db -> wf_table (snd (get_db now (delete_user user_id) db)).
Proof.
  intros Hwf. pose proof Hwf as [Hpk Hue]. rewrite delete_user_run.
  destruct (in_int64 _); [|exact Hwf].
  destruct (find _ db); [|exact Hwf].
  simpl. split; apply column_sql_delete; assumption.
Qed.

(** X1. On a table that meets its declared constraints, what [create_user],
    [update_user] and [delete_user] leave in the database, on success as on
    failure, meets them again. *)
Theorem handlers_keep_constraints (now : Z) (db : table) :
  wf_table db ->
  (forall user, wf_table (snd (get_db now (create_user user) db))) /\
  (forall user_id user_update,
      wf_table (snd (get_db now (update_user user_id user_update) db))) /\
  (forall user_id, wf_table (snd (get_db now (delete_user user_id) db))).
Proof.
  intros Hwf. split; [|split]; intros.
  - now apply create_user_keeps_constraints.
  - now apply update_user_keeps_constraints.
  - now apply delete_user_keeps_constraints.
Qed.

Lemma handlers_keep_constraints_witness :
  wf_table db0 /\
  wf_table (snd (get_db 500 (create_user (UserCreate.mk "Cy" "cy@x.com" 22 "Male")) db0)).
Proof.
  assert (Hwf : wf_table db0) by (split; concrete_table).
  split; [exact Hwf|].
  exact (proj1 (handlers_keep_constraints 500 db0 Hwf) _).
Defined.

End Constraints.

(** ** Validation at creation, and the scenario of the specification *)





(** The scenario of the specification: create Ann in an empty database at time 100, read her,
    rename her, delete her, read again. *)
Example scenario :
  get_db 100 (create_user ann) [] = (Ok (view_of ann_row), [ann_row]) /\
  get_db 101 (read_user 1) [ann_row] = (Ok (view_of ann_row), [ann_row]) /\
  get_db 102 (update_user 1 (UserUpdate.mk (Some "Anne") None None None)) [ann_row]
  = (Ok (view_of anne_row), [anne_row]) /\
  get_db 103 (delete_user 1) [anne_row]
  = (Ok [("message", "User has been deleted")], []) /\
  get_db 104 (read_user 1) [] = (Raise (HTTPException 404 "User not found"), []).
Proof. repeat (split; [vm_compute; reflexivity|]). vm_compute. reflexivity. Qed.

(** ** Further properties of the handlers *)

Lemma in_sql_update (i : Z) (r' : Row.t) (db : table) (x : Row.t) :
  In x (sql_update i r' db) -> x = r' \/ (In x db /\ Row.id x <> i).
Proof.
  unfold sql_update. rewrite in_map_iff. intros (y & Hy & Hin).
  destruct (Row.id y =? i) eqn:E; [now left | right].
  subst y. split; [exact Hin | now apply Z.eqb_neq].
Qed.

Lemma no_row_out_of_range (db : table) (i : Z) (r : Row.t) :
  in_int64 i = false -> In r db -> Row.id r <> i.
Proof.
  intros Hout _ Hid. rewrite <- Hid, id_in_int64 in Hout. discriminate.
Qed.

(** X4. An update of an id that no row has never looks at the body: when
    the id fits the engine's signed 64-bit range it signals Not-Found (404),
    and when it does not fit the lookup fails with [OverflowError]; the
    database is as it was. *)
Theorem update_user_not_found (now : Z) (db : table) (user_id : Z)
        (user_update : UserUpdate.t) :
  (forall r, In r db -> Row.id r <> user_id) ->
  (- 2 ^ 63 <= user_id < 2 ^ 63 ->
   get_db now (update_user user_id user_update) db
   = (Raise (HTTPException 404 "User not found"), db)) /\
  (~ (- 2 ^ 63 <= user_id < 2 ^ 63) ->
   get_db now (update_user user_id user_update) db = (Raise OverflowError, db)).
Proof.
  intros Hno. rewrite update_user_run. split.
  - intros Hrange. apply in_int64_bounds in Hrange. rewrite Hrange.
    replace (find (by_id user_id) db) with (@None Row.t); [reflexivity|].
    symmetry. apply find_none_iff. intros r Hr. now apply by_id_false, Hno.
  - intros Hrange. apply not_in_int64_bounds in Hrange. now rewrite Hrange.
Qed.

Lemma update_user_not_found_witness :
  get_db 500 (update_user 7 (UserUpdate.mk (Some "Zed") (Some "ann@x.com") (Some 1) (Some "Other")))
         db0
  = (Raise (HTTPException 404 "User not found"), db0) /\
  get_db 500 (update_user (2 ^ 63) (UserUpdate.mk (Some "Zed") None None None)) db0
  = (Raise OverflowError, db0).
Proof.
  split.
  - apply (update_user_not_found 500 db0 7).
    + intros r [<-|[<-|[]]]; vm_compute; discriminate.
    + lia.
  - apply (update_user_not_found 500 db0 (2 ^ 63)).
    + intros r [<-|[<-|[]]]; vm_compute; discriminate.
    + lia.
Defined.

(** X5. An update of an existing user with an empty body succeeds and still
    stamps the row: the view returned is the stored one with [updated_at]
    set to the engine's clock, and a later read returns it. *)
Theorem update_user_empty_body (now later : Z) (db : table) (target : Row.t) :
  primary_key db ->
  In target db ->
  exists db',
    get_db now (update_user (Row.id target) (UserUpdate.mk None None None None)) db
    = (Ok (UserRead.mk (Row.id target) (Row.name target) (Row.email target)
                       (Row.age target) (Row.sex target) (Row.created_at target)
                       (Some now)), db') /\
    get_db later (read_user (Row.id target)) db'
    = (Ok (UserRead.mk (Row.id target) (Row.name target) (Row.email target)
                       (Row.age target) (Row.sex target) (Row.created_at target)
                       (Some now)), db').
Proof.
  intros Hpk Hin. pose proof (find_by_id_unique db target Hpk Hin) as Hf.
  eexists. split.
  - rewrite update_user_run, id_in_int64, Hf. reflexivity.
  - now rewrite read_user_run, id_in_int64, (find_sql_update _ _ _ _ Hf).
Qed.

Lemma update_user_empty_body_witness :
  exists db',
    get_db 500 (update_user 2 (UserUpdate.mk None None None None)) db0
    = (Ok (UserRead.mk 2 "Bob" "bob@x.com" 41 "Male" (Some 101) (Some 500)), db').
Proof.
  destruct (update_user_empty_body 500 501 db0 bob_row) as (db' & Hrun & _).
  - concrete_table.
  - right; now left.
  - exists db'. exact Hrun.
Defined.



(** X7. Whatever the body, an update that succeeds touches one row only: the
    view carries the id asked for and the creation time that row had, the
    engine's clock as [updated_at], and for name and address the supplied
    value or else the stored one; the keys of the table, their order and the
    rows of other users are as before. *)
Theorem update_user_success_frame (now : Z) (db db' : table) (user_id : Z)
        (user_update : UserUpdate.t) (view : UserRead.t) :
  get_db now (update_user user_id user_update) db = (Ok view, db') ->
  exists r,
    In r db /\ Row.id r = user_id /\
    UserRead.id view = user_id /\
    UserRead.created_at view = Row.created_at r /\
    UserRead.updated_at view = Some now /\
    UserRead.name view
    = match UserUpdate.name user_update with Some v => v | None => Row.name r end /\
    UserRead.email view
    = match UserUpdate.email user_update with Some v => v | None => Row.email r end /\
    map Row.id db' = map Row.id db /\
    (forall x, Row.id x <> user_id -> (In x db' <-> In x db)).
Proof.
  rewrite update_user_run.
  destruct (in_int64 user_id); [|discriminate].
  destruct (find (by_id user_id) db) as [r|] eqn:Hf; [|discriminate].
  destruct (email_registered _ _ _); [discriminate|].
  destruct (UserUpdate.age _); [discriminate|].
  destruct (UserUpdate.sex _); [discriminate|].
  intros H. injection H as <- <-.
  apply find_some in Hf as [Hin Hid]. apply by_id_true in Hid.
  exists r. destruct user_update as [[n|] [e|] a x]; simpl;
    (repeat (split; [solve [auto]|]));
    (split; [now apply map_id_sql_update | intros y Hy; now apply in_sql_update_other]).
Qed.

Lemma update_user_success_frame_witness :
  exists r,
    In r db0 /\ Row.id r = 1 /\
    UserRead.created_at (view_of (patched 500 (UserUpdate.mk (Some "Anne") None None None) ann_row))
    = Row.created_at r.
Proof.
  destruct (update_user_success_frame 500 db0
              (sql_update 1 (patched 500 (UserUpdate.mk (Some "Anne") None None None) ann_row)
                          db0)
              1 (UserUpdate.mk (Some "Anne") None None None)
              (view_of (patched 500 (UserUpdate.mk (Some "Anne") None None None) ann_row)))
    as (r & Hin & Hid & _ & Hc & _).
  - reflexivity.
  - exists r. split; [exact Hin|]. split; [exact Hid | exact Hc].
Defined.

(** X8. After a create that succeeds, the new user is found under the
    address of the input, and every further create with that address,
    whatever else it holds, signals Conflict (400) and inserts nothing. *)
Theorem create_user_then_same_email (now later : Z) (db db' : table)
        (user : UserCreate.t) (view : UserRead.t) :
  get_db now (create_user user) db = (Ok view, db') ->
  UserRead.email view = UserCreate.email user /\
  get_db later (read_user_by_email (UserCreate.email user)) db' = (Ok view, db') /\
  forall other,
    UserCreate.email other = UserCreate.email user ->
    get_db later (create_user other) db'
    = (Raise (HTTPException 400 "Email already in use"), db').
Proof.
  rewrite create_user_run.
  destruct (find (by_email (UserCreate.email user)) db) eqn:Hf; [discriminate|].
  destruct (negb _ && negb _); [discriminate|].
  destruct (negb (str_in _ _)); [discriminate|].
  destruct (of_Z _); [|discriminate].
  destruct (next_rowid _ _); [|discriminate].
  intros H. injection H as <- <-.
  assert (Hnew : find (by_email (UserCreate.email user))
                      (db ++ [inserted now user db])%list
                 = Some (inserted now user db))
    by (apply find_app_new; [exact Hf | now apply by_email_true]).
  split; [reflexivity|]. split.
  - now rewrite read_user_by_email_run, Hnew.
  - intros other Ho. now rewrite create_user_run, Ho, Hnew.
Qed.

Lemma create_user_then_same_email_witness :
  get_db 501 (create_user (UserCreate.mk "Eve" "cy@x.com" 0 "Other"))
         (db0 ++ [inserted 500 (UserCreate.mk "Cy" "cy@x.com" 22 "Male") db0])%list
  = (Raise (HTTPException 400 "Email already in use"),
     (db0 ++ [inserted 500 (UserCreate.mk "Cy" "cy@x.com" 22 "Male") db0])%list).
Proof.
  refine (proj2 (proj2 (create_user_then_same_email 500 501 db0 _
                          (UserCreate.mk "Cy" "cy@x.com" 22 "Male")
                          (view_of (inserted 500 (UserCreate.mk "Cy" "cy@x.com" 22 "Male") db0))
                          _))
                (UserCreate.mk "Eve" "cy@x.com" 0 "Other") eq_refl).
  reflexivity.
Defined.



(** X10. A second delete of the same id never succeeds: whether or not the
    first one found a row, the second finds none.  It fails on the missing
    instance when the id fits the engine's signed 64-bit range and with
    [OverflowError] at the lookup when it does not; the database stays as the
    first delete left it. *)
Theorem delete_user_twice (now later : Z) (db : table) (user_id : Z) :
  exists e,
    get_db later (delete_user user_id) (snd (get_db now (delete_user user_id) db))
    = (Raise e, snd (get_db now (delete_user user_id) db)) /\
    (- 2 ^ 63 <= user_id < 2 ^ 63 -> e = UnmappedInstanceError) /\
    (~ (- 2 ^ 63 <= user_id < 2 ^ 63) -> e = OverflowError).
Proof.
  rewrite (delete_user_run now db), (delete_user_run later).
  destruct (in_int64 user_id) eqn:Hrange.
  - apply in_int64_bounds in Hrange. exists UnmappedInstanceError.
    split; [|split; [reflexivity | contradiction]].
    destruct (find (by_id user_id) db) eqn:Hf; simpl.
    + now rewrite find_sql_delete.
    + now rewrite Hf.
  - apply not_in_int64_bounds in Hrange. exists OverflowError.
    split; [reflexivity | split; [contradiction | reflexivity]].
Qed.

(** X11. The two read handlers never change the database, found or not.  A
    delete that fails found no row with the id and leaves the database as it
    was: it fails on the missing instance when the id fits the engine's
    signed 64-bit range, and with [OverflowError] at the lookup when it does
    not. *)
Theorem reads_and_failed_delete_leave_database (now : Z) (db : table) :
  (forall user_id, snd (get_db now (read_user user_id) db) = db) /\
  (forall email, snd (get_db now (read_user_by_email email) db) = db) /\
  (forall user_id e db',
      get_db now (delete_user user_id) db = (Raise e, db') ->
      db' = db /\
      (forall r, In r db -> Row.id r <> user_id) /\
      (- 2 ^ 63 <= user_id < 2 ^ 63 -> e = UnmappedInstanceError) /\
      (~ (- 2 ^ 63 <= user_id < 2 ^ 63) -> e = OverflowError)).
Proof.
  split; [|split].
  - intros user_id. rewrite read_user_run.
    destruct (in_int64 _); [|reflexivity]. now destruct (find _ db).
  - intros email. rewrite read_user_by_email_run. now destruct (find _ db).
  - intros user_id e db'. rewrite delete_user_run.
    destruct (in_int64 user_id) eqn:Hrange.
    + apply in_int64_bounds in Hrange.
      destruct (find _ db) eqn:Hf; [discriminate|].
      intros H. injection H as <- <-.
      split; [reflexivity|]. split; [|split; [reflexivity | contradiction]].
      intros r Hr. now apply by_id_false, (find_none _ _ Hf).
    + intros H. injection H as <- <-.
      split; [reflexivity|].
      split; [intros r Hr; exact (no_row_out_of_range db user_id r Hrange Hr)|].
      apply not_in_int64_bounds in Hrange. split; [contradiction | reflexivity].
Qed.



(** ** What holds of every database the application can reach *)

Lemma database_after_constraints (now : Z) (req : request) (db : table) :
  wf_table db -> wf_table (database_after now req db).
Proof.
  intros Hwf. destruct req; simpl.
  - now apply create_user_keeps_constraints.
  - rewrite read_user_run. destruct (in_int64 _); [|exact Hwf]. now destruct (find _ db).
  - rewrite read_user_by_email_run. now destruct (find _ db).
  - now apply update_user_keeps_constraints.
  - now apply delete_user_keeps_constraints.
Qed.

(** The sex of a row is written once, by a create that has tested it: an
    update that gets as far as the commit carries no sex. *)
Lemma database_after_sex_valid (now : Z) (req : request) (db : table) :
  sex_valid db -> sex_valid (database_after now req db).
Proof.
  intros Hsv. destruct req as [user|user_id|email|user_id user_update|user_id]; simpl.
  - rewrite create_user_run.
    destruct (find _ db); [exact Hsv|].
    destruct (String.eqb (UserCreate.sex user) "Female") eqn:HF;
      [|destruct (String.eqb (UserCreate.sex user) "Male") eqn:HM; [|exact Hsv]];
      simpl; (destruct (negb (str_in _ _)); [exact Hsv|]);
      (destruct (of_Z _); [|exact Hsv]);
      (destruct (next_rowid _ _); [|exact Hsv]);
      simpl; intros r Hr; apply in_app_iff in Hr as [Hr | [<- | []]];
      try (now apply Hsv); simpl.
    + left. now apply String.eqb_eq.
    + right. now apply String.eqb_eq.
  - rewrite read_user_run. destruct (in_int64 _); [|exact Hsv]. now destruct (find _ db).
  - rewrite read_user_by_email_run. now destruct (find _ db).
  - rewrite update_user_run.
    destruct (in_int64 _); [|exact Hsv].
    destruct (find _ db) as [r|] eqn:Hf; [|exact Hsv].
    destruct (email_registered _ _ _); [exact Hsv|].
    destruct (UserUpdate.age _) eqn:Ha; [exact Hsv|].
    destruct (UserUpdate.sex _) eqn:Hs; [exact Hsv|].
    simpl. apply find_some in Hf as [Hin _].
    intros x Hx. apply in_sql_update in Hx as [-> | [Hx _]]; [|now apply Hsv].
    simpl. now apply Hsv.
  - rewrite delete_user_run.
    destruct (in_int64 _); [|exact Hsv].
    destruct (find _ db); [|exact Hsv].
    simpl. intros x Hx. apply in_sql_delete in Hx as [Hx _]. now apply Hsv.
Qed.

Lemma serve_keeps (reqs : list (Z * request)) (db : table) :
  wf_table db -> sex_valid db ->
  wf_table (serve reqs db) /\ sex_valid (serve reqs db).
Proof.
  revert db. induction reqs as [|[now req] reqs IH]; intros db Hwf Hsv; simpl.
  - now split.
  - apply IH; [now apply database_after_constraints | now apply database_after_sex_valid].
Qed.

(** X12. Whatever requests the application has served since the table was
    created empty, in whatever order and at whatever times, the database
    meets its declared constraints (no two rows share an id, no two rows
    share an address) and every stored sex is "Female" or "Male". *)
Theorem served_database_invariant (reqs : list (Z * request)) :
  wf_table (serve reqs []) /\ sex_valid (serve reqs []).
Proof.
  apply serve_keeps.
  - split; constructor.
  - intros r [].
Qed.

(** X13. On a table that meets its declared constraints every stored user is
    reachable both ways: [read_user] with the row's id and
    [read_user_by_email] with the row's address return the same view, that
    of the row. *)
Theorem reads_agree (now : Z) (db : table) (r : Row.t) :
  wf_table db ->
  In r db ->
  get_db now (read_user (Row.id r)) db = (Ok (view_of r), db) /\
  get_db now (read_user_by_email (Row.email r)) db = (Ok (view_of r), db).
Proof.
  intros [Hpk Hue] Hin. split.
  - now rewrite read_user_run, id_in_int64, (find_by_id_unique db r Hpk Hin).
  - now rewrite read_user_by_email_run, (find_by_email_unique db r Hue Hin).
Qed.

Lemma reads_agree_witness :
  get_db 500 (read_user 2) db0 = (Ok (view_of bob_row), db0) /\
  get_db 500 (read_user_by_email "bob@x.com") db0 = (Ok (view_of bob_row), db0).
Proof.
  apply (reads_agree 500 db0 bob_row).
  - split; concrete_table.
  - right; now left.
Defined.
